(** * pysg: math utilities and renderer, embedded in Rocq

    The functions of [pysg/math.py] and the frame routine [Renderer._render]
    of [pysg/renderer.py] are embedded here and the statements of the
    specification are settled against them.

    Numbers.  Python floats are modelled by the real numbers of the Standard
    Library: arithmetic is exact, comparisons are the order of the reals.
    Rounding, NaN and signed zeros have no counterpart.  The two infinite
    bounds of [is_angle] are modelled by an extended real line.  A division
    by zero and a [math] domain error are modelled as raised exceptions. *)

From Stdlib Require Import Reals Lra List Bool String.
Import ListNotations.

Open Scope R_scope.

(** ** Python values and exceptions *)

Module Py.

Inductive exn : Type :=
| ZeroDivisionError
| ValueError
| AssertionError
| NotImplementedError.

(** The outcome of evaluating an expression: a value or a raised exception. *)
Inductive result (A : Type) : Type :=
| Ok (a : A)
| Raise (e : exn).

Arguments Ok {A} a.
Arguments Raise {A} e.

Definition bind {A B : Type} (m : result A) (k : A -> result B) : result B :=
  match m with
  | Ok a => k a
  | Raise e => Raise e
  end.

(** Comparison operators of Python on floats, as booleans. *)
Definition float_lt (x y : R) : bool := if Rlt_dec x y then true else false.
Definition float_le (x y : R) : bool := if Rle_dec x y then true else false.
Definition float_gt (x y : R) : bool := float_lt y x.
Definition float_ge (x y : R) : bool := float_le y x.
Definition float_eq (x y : R) : bool := if Req_dec_T x y then true else false.

(** [x / y] on floats: raises [ZeroDivisionError] when [y] is zero. *)
Definition float_div (x y : R) : result R :=
  if float_eq y 0 then Raise ZeroDivisionError else Ok (x / y).

(** [math.sqrt]: raises [ValueError] on a negative argument. *)
Definition math_sqrt (x : R) : result R :=
  if float_lt x 0 then Raise ValueError else Ok (sqrt x).

(** [math.asin]: raises [ValueError] outside of [-1, 1]. *)
Definition math_asin (x : R) : result R :=
  if float_lt x (-1) then Raise ValueError
  else if float_lt 1 x then Raise ValueError
  else Ok (asin x).

(** [math.atan2 y x]: the angle of the point [(x, y)], in [(-pi, pi]];
    [atan2 0 0] is [0]. *)
Definition math_atan2 (y x : R) : R :=
  if float_lt 0 x then atan (y / x)
  else if float_lt x 0 then
    if float_le 0 y then atan (y / x) + PI else atan (y / x) - PI
  else if float_lt 0 y then PI / 2
  else if float_lt y 0 then - (PI / 2)
  else 0.

(** [math.fabs]. *)
Definition math_fabs (x : R) : R := Rabs x.

(** [numpy.rad2deg] and [numpy.deg2rad] on one number. *)
Definition rad2deg (x : R) : R := x * 180 / PI.

End Py.

Notation "x <- m ;; k" := (Py.bind m (fun x => k))
  (at level 61, m at next level, right associativity).

Import Py.

(** ** [pysg/math.py] *)

(** *** [is_angle] *)

(** A float that may be [math.inf] or [-math.inf]. *)
Inductive xreal : Type :=
| NegInf
| Fin (r : R)
| PosInf.

(** [x <= y] on such floats. *)
Definition xle (x y : xreal) : bool :=
  match x, y with
  | NegInf, _ => true
  | _, PosInf => true
  | Fin a, Fin b => float_le a b
  | _, _ => false
  end.

Definition is_angle (angle : xreal)
    (in_degrees allow_negative limit_to_circle : bool) : bool :=
  let '(upper_limit, lower_limit) :=
    if limit_to_circle then
      (if in_degrees then Fin 360.0 else Fin (2 * PI),
       if allow_negative then Fin (-360.0) else Fin 0.0)
    else
      (PosInf,
       if allow_negative then NegInf else Fin 0.0) in
  xle lower_limit angle && xle angle upper_limit.

(** *** [solve_quadratic_equation] *)

Definition solve_quadratic_equation (a b c : R) : result (list R) :=
  let delta := b * b - 4 * a * c in
  if float_gt delta 0 then
    q <- (if float_gt b 0
          then (r <- math_sqrt delta ;; Ok (-0.5 * (b + r)))
          else (r <- math_sqrt delta ;; Ok (-0.5 * (b - r)))) ;;
    s1 <- float_div q a ;;
    s2 <- float_div c q ;;
    Ok [s1; s2]
  else if float_eq delta 0 then
    s <- float_div (- b) (2 * a) ;;
    Ok [s]
  else
    Ok [].

(** *** [ray_intersect_sphere] *)

(** A numpy array of three floats. *)
Record Vector3 : Type := vec3 { vx : R; vy : R; vz : R }.

Definition v3_add (u v : Vector3) : Vector3 :=
  vec3 (vx u + vx v) (vy u + vy v) (vz u + vz v).

Definition v3_sub (u v : Vector3) : Vector3 :=
  vec3 (vx u - vx v) (vy u - vy v) (vz u - vz v).

Definition v3_scale (u : Vector3) (t : R) : Vector3 :=
  vec3 (vx u * t) (vy u * t) (vz u * t).

(** [numpy.dot] on two such arrays. *)
Definition np_dot3 (u v : Vector3) : R :=
  vx u * vx v + vy u * vy v + vz u * vz v.

(** pyrr's ray: row 0 is the origin, row 1 the direction. *)
Record Ray : Type := mkRay { ray_position : Vector3; ray_direction : Vector3 }.

(** pyrr's sphere: three coordinates of the centre, then the radius. *)
Record Sphere : Type := mkSphere { sphere_position : Vector3; sphere_radius : R }.

(** One turn of the loop over [t_list]. *)
Definition keep_hit (ray_origin ray_direction : Vector3)
    (ret : list Vector3) (t : R) : list Vector3 :=
  if float_ge t 0 then ret ++ [v3_add ray_origin (v3_scale ray_direction t)] else ret.

Definition ray_intersect_sphere (ray : Ray) (sphere : Sphere)
    : result (list Vector3) :=
  let sphere_center := sphere_position sphere in
  let sphere_radius := sphere_radius sphere in
  let ray_origin := ray_position ray in
  let ray_direction := ray_direction ray in
  let a := 1 in
  let b := 2 * np_dot3 ray_direction (v3_sub ray_origin sphere_center) in
  let c := np_dot3 (v3_sub ray_origin sphere_center)
                   (v3_sub ray_origin sphere_center)
           - sphere_radius * sphere_radius in
  t_list <- solve_quadratic_equation a b c ;;
  Ok (fold_left (keep_hit ray_origin ray_direction) t_list []).

(** *** Matrices and [compose_matrix] *)

(** A row of four floats, and a 4x4 numpy array as its four rows. *)
Record Vector4 : Type := vec4 { c0 : R; c1 : R; c2 : R; c3 : R }.

Record Matrix44 : Type :=
  mat44 { row0 : Vector4; row1 : Vector4; row2 : Vector4; row3 : Vector4 }.

Definition v4_add (u v : Vector4) : Vector4 :=
  vec4 (c0 u + c0 v) (c1 u + c1 v) (c2 u + c2 v) (c3 u + c3 v).

Definition v4_scale (t : R) (u : Vector4) : Vector4 :=
  vec4 (t * c0 u) (t * c1 u) (t * c2 u) (t * c3 u).

(** [numpy.dot v m] for a 4-vector and a 4x4 array: the combination of the
    rows of [m] with the entries of [v] as weights. *)
Definition np_dot_vm (v : Vector4) (m : Matrix44) : Vector4 :=
  v4_add (v4_add (v4_add (v4_scale (c0 v) (row0 m)) (v4_scale (c1 v) (row1 m)))
                 (v4_scale (c2 v) (row2 m)))
         (v4_scale (c3 v) (row3 m)).

(** [numpy.dot a b] for two 4x4 arrays, row by row. *)
Definition np_dot (a b : Matrix44) : Matrix44 :=
  mat44 (np_dot_vm (row0 a) b) (np_dot_vm (row1 a) b)
        (np_dot_vm (row2 a) b) (np_dot_vm (row3 a) b).

(** pyrr's [Matrix44.__mul__]: [self * other] is
    [matrix44.multiply(other, self)], that is [numpy.dot(other, self)]. *)
Definition Matrix44_mul (self other : Matrix44) : Matrix44 := np_dot other self.

(** The OpenGL reading of an array: its rows are the columns of the matrix
    the shader multiplies a column vector with. *)
Definition gl_apply (m : Matrix44) (v : Vector4) : Vector4 := np_dot_vm v m.

(** pyrr's quaternion, stored as [x, y, z, w]. *)
Record Quaternion : Type := quat { qx : R; qy : R; qz : R; qw : R }.

Section Compose.

(** pyrr's property [Quaternion.matrix44], the rotation array of a
    quaternion. *)
Variable matrix44 : Quaternion -> Matrix44.

Definition translation_matrix (position : Vector3) : Matrix44 :=
  mat44 (vec4 1 0 0 0)
        (vec4 0 1 0 0)
        (vec4 0 0 1 0)
        (vec4 (vx position) (vy position) (vz position) 1).

Definition scale_matrix (scale : Vector3) : Matrix44 :=
  mat44 (vec4 (vx scale) 0 0 0)
        (vec4 0 (vy scale) 0 0)
        (vec4 0 0 (vz scale) 0)
        (vec4 0 0 0 1).

Definition compose_matrix (position : Vector3) (quaternion : Quaternion)
    (scale : Vector3) : Matrix44 :=
  let translation_matrix := translation_matrix position in
  let rotation_matrix := matrix44 quaternion in
  let scale_matrix := scale_matrix scale in
  Matrix44_mul (Matrix44_mul translation_matrix rotation_matrix) scale_matrix.

End Compose.

(** *** [quaternion_are_equal] *)

(** pyrr's [Quaternion.dot]. *)
Definition q_dot (p q : Quaternion) : R :=
  qx p * qx q + qy p * qy q + qz p * qz q + qw p * qw q.

(** The parameter [epsilon] is optional: [None] stands for a call that leaves
    it out, and then it is [1e-12]. *)
Definition quaternion_are_equal (q1 q2 : Quaternion) (epsilon : option R)
    : bool :=
  let epsilon := match epsilon with Some e => e | None => 1e-12 end in
  float_gt (math_fabs (q_dot q1 q2)) (1 - epsilon).

(** The quaternion [-q]. *)
Definition q_neg (q : Quaternion) : Quaternion :=
  quat (- qx q) (- qy q) (- qz q) (- qw q).

(** pyrr's quaternion product [quaternion.cross]. *)
Definition q_cross (p q : Quaternion) : Quaternion :=
  quat (  qx p * qw q + qy p * qz q - qz p * qy q + qw p * qx q)
       (- qx p * qz q + qy p * qw q + qz p * qx q + qw p * qy q)
       (  qx p * qy q - qy p * qx q + qz p * qw q + qw p * qz q)
       (- qx p * qx q - qy p * qy q - qz p * qz q + qw p * qw q).

(** pyrr's [quaternion.create_from_axis_rotation] for a unit axis. *)
Definition q_axis_rotation (axis : Vector3) (theta : R) : Quaternion :=
  quat (vx axis * sin (theta / 2)) (vy axis * sin (theta / 2))
       (vz axis * sin (theta / 2)) (cos (theta / 2)).

(** *** [quaternion_to_euler_angles] and [euler_angles_to_quaternion] *)

Definition quaternion_to_euler_angles (quaternion : Quaternion)
    : result Vector3 :=
  let sqw := qw quaternion * qw quaternion in
  let sqx := qx quaternion * qx quaternion in
  let sqy := qy quaternion * qy quaternion in
  let sqz := qz quaternion * qz quaternion in
  let unit := sqx + sqy + sqz + sqw in
  let test := qx quaternion * qy quaternion + qz quaternion * qw quaternion in
  hab <- (if float_gt test (0.499 * unit) then
            Ok (2 * math_atan2 (qx quaternion) (qw quaternion), PI / 2, 0)
          else if float_lt test (-0.499 * unit) then
            Ok (-2 * math_atan2 (qx quaternion) (qw quaternion), - PI / 2, 0)
          else
            let heading :=
              math_atan2 (2 * qy quaternion * qw quaternion
                          - 2 * qx quaternion * qz quaternion)
                         (sqx - sqy - sqz + sqw) in
            r <- float_div (2 * test) unit ;;
            attitude <- math_asin r ;;
            let bank :=
              math_atan2 (2 * qx quaternion * qw quaternion
                          - 2 * qy quaternion * qz quaternion)
                         (- sqx + sqy - sqz + sqw) in
            Ok (heading, attitude, bank)) ;;
  let '(heading, attitude, bank) := hab in
  Ok (vec3 (rad2deg bank) (rad2deg heading) (rad2deg attitude)).




(** ** [pysg/renderer.py] *)

Module Renderer.

(** The classes the renderer tests for, and any other class. *)
Inductive pyclass : Type :=
| PlaneObject3D
| IcosahedronObject3D
| CubeObject3D
| CircleObject3D
| OtherClass (name : string).

Definition pyclass_eqb (c d : pyclass) : bool :=
  match c, d with
  | PlaneObject3D, PlaneObject3D => true
  | IcosahedronObject3D, IcosahedronObject3D => true
  | CubeObject3D, CubeObject3D => true
  | CircleObject3D, CircleObject3D => true
  | OtherClass n, OtherClass m => String.eqb n m
  | _, _ => false
  end.

(** A node of the scene.  [mro] lists the class of the node and the classes
    it inherits from. *)
Record Object3D : Type := mkObject3D { name : string; mro : list pyclass }.

(** [issubclass(type(o), c)]. *)
Definition issubclass_type (o : Object3D) (c : pyclass) : bool :=
  existsb (pyclass_eqb c) (mro o).

Record RenderList : Type :=
  mkRenderList { geometry : list Object3D; point_lights : list Object3D }.

Record Scene : Type :=
  mkScene { auto_update : bool; render_list : RenderList }.

(** [_parent] is [None] or a node. *)
Record Camera : Type := mkCamera { _parent : option Object3D }.

Record Renderer : Type := mkRenderer { scene : Scene; camera : Camera }.

Inductive vao : Type := plane_vao | icosahedron_vao | cube_vao | circle_vao.

Inductive primitive : Type := TRIANGLES | TRIANGLE_FAN.

(** What [_render] asks of the scene, the camera and the graphics context,
    in the order in which it asks. *)
Inductive event : Type :=
| ctx_clear
| scene_update_world_matrix
| camera_update_world_matrix
| camera_view_projection
    (* camera.projection_matrix * camera.world_matrix.inverse *)
| view_projection_matrix_write
| ambient_light_set
| point_light_color_set (light : Object3D)
| point_light_position_set (light : Object3D)
| model_matrix_write (o : Object3D)
| object_color_set (o : Object3D)
| model_size_set (o : Object3D)
| vao_render (v : vao) (mode : primitive).

(** A statement runs on the events so far and either completes or raises. *)
Definition stmt : Type := list event -> list event * result unit.

Definition pass : stmt := fun tr => (tr, Ok tt).

Definition emit (e : event) : stmt := fun tr => (tr ++ [e], Ok tt).

Definition raise (e : exn) : stmt := fun tr => (tr, Raise e).

Definition seq (s1 s2 : stmt) : stmt :=
  fun tr =>
    match s1 tr with
    | (tr', Ok _) => s2 tr'
    | (tr', Raise e) => (tr', Raise e)
    end.

Notation "s1 >> s2" := (seq s1 s2) (at level 62, right associativity).

(** [for x in xs: body x]. *)
Fixpoint for_each {A : Type} (xs : list A) (body : A -> stmt) : stmt :=
  match xs with
  | [] => pass
  | x :: xs' => body x >> for_each xs' body
  end.

(** The truth value of an exception instance.  [BaseException] defines
    neither [__bool__] nor [__len__]: every instance is true. *)
Definition exception_truth (e : exn) : bool := true.

(** [assert v]. *)
Definition py_assert (v : bool) : stmt :=
  if v then pass else raise AssertionError.

(** The body of the loop over the geometry of the render list. *)
Definition render_object (object_3d : Object3D) : stmt :=
  emit (model_matrix_write object_3d) >>
  emit (object_color_set object_3d) >>
  emit (model_size_set object_3d) >>
  if issubclass_type object_3d PlaneObject3D then
    emit (vao_render plane_vao TRIANGLES)
  else if issubclass_type object_3d IcosahedronObject3D then
    emit (vao_render icosahedron_vao TRIANGLES)
  else if issubclass_type object_3d CubeObject3D then
    emit (vao_render cube_vao TRIANGLES)
  else if issubclass_type object_3d CircleObject3D then
    emit (vao_render circle_vao TRIANGLE_FAN)
  else
    py_assert (exception_truth NotImplementedError).

Definition _render (self : Renderer) : stmt :=
  emit ctx_clear >>
  (if auto_update (scene self)
   then emit scene_update_world_matrix else pass) >>
  (match _parent (camera self) with
   | None => emit camera_update_world_matrix
   | Some _ => pass
   end) >>
  emit camera_view_projection >>
  emit view_projection_matrix_write >>
  emit ambient_light_set >>
  (match point_lights (render_list (scene self)) with
   | light :: _ =>
       emit (point_light_color_set light) >>
       emit (point_light_position_set light)
   | [] => pass
   end) >>
  for_each (geometry (render_list (scene self))) render_object.

(** The events of one call and how it ends. *)
Definition run (s : stmt) : list event * result unit := s [].

(** The events of the loop body for one object: the three uniforms, then the
    draw call of the first class test that succeeds, if one does. *)
Definition draw_events (o : Object3D) : list event :=
  if issubclass_type o PlaneObject3D then [vao_render plane_vao TRIANGLES]
  else if issubclass_type o IcosahedronObject3D then
    [vao_render icosahedron_vao TRIANGLES]
  else if issubclass_type o CubeObject3D then [vao_render cube_vao TRIANGLES]
  else if issubclass_type o CircleObject3D then
    [vao_render circle_vao TRIANGLE_FAN]
  else [].

Definition object_events (o : Object3D) : list event :=
  [model_matrix_write o; object_color_set o; model_size_set o]
  ++ draw_events o.

(** The events of a frame up to the computation of the view-projection
    matrix, and after it. *)
Definition refresh_events (self : Renderer) : list event :=
  [ctx_clear]
  ++ (if auto_update (scene self) then [scene_update_world_matrix] else [])
  ++ (match _parent (camera self) with
      | None => [camera_update_world_matrix]
      | Some _ => []
      end).

Definition draw_phase_events (self : Renderer) : list event :=
  [view_projection_matrix_write; ambient_light_set]
  ++ (match point_lights (render_list (scene self)) with
      | light :: _ =>
          [point_light_color_set light; point_light_position_set light]
      | [] => []
      end)
  ++ flat_map object_events (geometry (render_list (scene self))).

(** A render list with one mesh whose class derives from none of the four
    classes the renderer knows. *)
Definition custom_mesh : Object3D :=
  mkObject3D "mesh" [OtherClass "MeshObject3D"; OtherClass "Object3D"].

Definition custom_mesh_renderer : Renderer :=
  mkRenderer (mkScene true (mkRenderList [custom_mesh] []))
             (mkCamera None).

End Renderer.

(** ** Further definitions *)

(** The quaternion [k * q]. *)
Definition q_scale (k : R) (q : Quaternion) : Quaternion :=
  quat (k * qx q) (k * qy q) (k * qz q) (k * qw q).

(** The identity array. *)
Definition identity_matrix : Matrix44 :=
  mat44 (vec4 1 0 0 0) (vec4 0 1 0 0) (vec4 0 0 1 0) (vec4 0 0 0 1).

(** What the graphics context does with the calls of a frame. *)
Module Frame.

Import Renderer.

(** A draw call together with the objects whose model matrix, colour and
    size are in the uniforms when it is made. *)
Record draw : Type :=
  mkDraw { draw_vao : vao; draw_mode : primitive;
           draw_matrix : option Object3D; draw_color : option Object3D;
           draw_size : option Object3D }.

(** The uniforms of the program and the draw calls made so far.  A uniform
    keeps its value until it is written again. *)
Record gl_state : Type :=
  mkState { model_matrix : option Object3D; object_color : option Object3D;
            model_size : option Object3D; draws : list draw }.

Definition initial : gl_state := mkState None None None [].

Definition step (st : gl_state) (e : event) : gl_state :=
  match e with
  | model_matrix_write o =>
      mkState (Some o) (object_color st) (model_size st) (draws st)
  | object_color_set o =>
      mkState (model_matrix st) (Some o) (model_size st) (draws st)
  | model_size_set o =>
      mkState (model_matrix st) (object_color st) (Some o) (draws st)
  | vao_render v mode =>
      mkState (model_matrix st) (object_color st) (model_size st)
              (draws st ++ [mkDraw v mode (model_matrix st) (object_color st)
                                   (model_size st)])
  | _ => st
  end.

Definition replay (tr : list event) : gl_state := fold_left step tr initial.

(** The draw call an object is expected to get: that of the first of the
    four classes it derives from, with its own uniforms. *)
Definition own_draw (o : Object3D) : list draw :=
  if issubclass_type o PlaneObject3D then
    [mkDraw plane_vao TRIANGLES (Some o) (Some o) (Some o)]
  else if issubclass_type o IcosahedronObject3D then
    [mkDraw icosahedron_vao TRIANGLES (Some o) (Some o) (Some o)]
  else if issubclass_type o CubeObject3D then
    [mkDraw cube_vao TRIANGLES (Some o) (Some o) (Some o)]
  else if issubclass_type o CircleObject3D then
    [mkDraw circle_vao TRIANGLE_FAN (Some o) (Some o) (Some o)]
  else [].

(** The events that set a uniform of the point light. *)
Definition is_light_event (e : event) : bool :=
  match e with
  | point_light_color_set _ | point_light_position_set _ => true
  | _ => false
  end.

End Frame.

(** * Properties *)

(** ** The comparison operators *)

Lemma float_lt_iff (x y : R) : float_lt x y = true <-> x < y.
Proof. unfold float_lt. destruct (Rlt_dec x y); split; intros; try discriminate; tauto. Qed.

Lemma float_le_iff (x y : R) : float_le x y = true <-> x <= y.
Proof. unfold float_le. destruct (Rle_dec x y); split; intros; try discriminate; tauto. Qed.

Lemma float_lt_true (x y : R) : x < y -> float_lt x y = true.
Proof. apply float_lt_iff. Qed.

Lemma float_lt_false (x y : R) : y <= x -> float_lt x y = false.
Proof. intros H. unfold float_lt. destruct (Rlt_dec x y); [lra | reflexivity]. Qed.

Lemma float_le_true (x y : R) : x <= y -> float_le x y = true.
Proof. apply float_le_iff. Qed.

Lemma float_le_false (x y : R) : y < x -> float_le x y = false.
Proof. intros H. unfold float_le. destruct (Rle_dec x y); [lra | reflexivity]. Qed.

Lemma float_eq_true (x y : R) : x = y -> float_eq x y = true.
Proof. intros H. unfold float_eq. destruct (Req_dec_T x y); [reflexivity | contradiction]. Qed.

Lemma float_eq_false (x y : R) : x <> y -> float_eq x y = false.
Proof. intros H. unfold float_eq. destruct (Req_dec_T x y); [contradiction | reflexivity]. Qed.

Lemma float_gt_true (x y : R) : y < x -> float_gt x y = true.
Proof. apply float_lt_true. Qed.

Lemma float_gt_false (x y : R) : x <= y -> float_gt x y = false.
Proof. apply float_lt_false. Qed.

Lemma float_ge_true (x y : R) : y <= x -> float_ge x y = true.
Proof. apply float_le_true. Qed.

Lemma float_ge_false (x y : R) : x < y -> float_ge x y = false.
Proof. apply float_le_false. Qed.

Lemma float_div_ok (x y : R) : y <> 0 -> float_div x y = Ok (x / y).
Proof. intros H. unfold float_div. rewrite float_eq_false by assumption. reflexivity. Qed.

Lemma math_sqrt_ok (x : R) : 0 <= x -> math_sqrt x = Ok (sqrt x).
Proof. intros H. unfold math_sqrt. rewrite float_lt_false by assumption. reflexivity. Qed.

(** ** The quadratic solver *)

Section Quadratic.

Variables a b c : R.
Hypothesis a_nonzero : a <> 0.

Let delta := b * b - 4 * a * c.

(** With a positive discriminant and [b > 0] the solver takes
    [q = -0.5 * (b + sqrt delta)], which is negative. *)
Lemma solve_two_pos :
  0 < delta -> 0 < b ->
  -0.5 * (b + sqrt delta) < 0 /\
  solve_quadratic_equation a b c =
    Ok [-0.5 * (b + sqrt delta) / a; c / (-0.5 * (b + sqrt delta))].
Proof.
  intros Hd Hb. pose proof (sqrt_lt_R0 delta Hd) as Hs.
  split; [lra |].
  unfold solve_quadratic_equation; fold delta; cbv zeta.
  rewrite (float_gt_true delta 0 Hd), (float_gt_true b 0 Hb).
  rewrite (math_sqrt_ok delta (Rlt_le _ _ Hd)); cbn [bind].
  rewrite (float_div_ok _ a a_nonzero); cbn [bind].
  rewrite float_div_ok by lra. reflexivity.
Qed.

(** With a positive discriminant and [b <= 0] it takes
    [q = -0.5 * (b - sqrt delta)], which is positive. *)
Lemma solve_two_nonpos :
  0 < delta -> b <= 0 ->
  0 < -0.5 * (b - sqrt delta) /\
  solve_quadratic_equation a b c =
    Ok [-0.5 * (b - sqrt delta) / a; c / (-0.5 * (b - sqrt delta))].
Proof.
  intros Hd Hb. pose proof (sqrt_lt_R0 delta Hd) as Hs.
  split; [lra |].
  unfold solve_quadratic_equation; fold delta; cbv zeta.
  rewrite (float_gt_true delta 0 Hd), (float_gt_false b 0 Hb).
  rewrite (math_sqrt_ok delta (Rlt_le _ _ Hd)); cbn [bind].
  rewrite (float_div_ok _ a a_nonzero); cbn [bind].
  rewrite float_div_ok by lra. reflexivity.
Qed.

Lemma solve_one :
  delta = 0 -> solve_quadratic_equation a b c = Ok [- b / (2 * a)].
Proof.
  intros Hd.
  unfold solve_quadratic_equation; fold delta; cbv zeta.
  rewrite float_gt_false by lra. rewrite float_eq_true by assumption.
  rewrite float_div_ok by lra. reflexivity.
Qed.

Lemma solve_none :
  delta < 0 -> solve_quadratic_equation a b c = Ok [].
Proof.
  intros Hd.
  unfold solve_quadratic_equation; fold delta; cbv zeta.
  rewrite float_gt_false by lra. rewrite float_eq_false by lra. reflexivity.
Qed.

(** The solver returns a list of roots: nothing it divides by is zero. *)
Lemma solve_returns :
  exists roots, solve_quadratic_equation a b c = Ok roots.
Proof.
  destruct (Rtotal_order delta 0) as [Hd | [Hd | Hd]].
  - eexists. apply solve_none. exact Hd.
  - eexists. apply solve_one. exact Hd.
  - destruct (Rlt_le_dec 0 b) as [Hb | Hb].
    + eexists. apply (solve_two_pos Hd Hb).
    + eexists. apply (solve_two_nonpos Hd Hb).
Qed.

End Quadratic.

Lemma sqrt_16 : sqrt 16 = 4.
Proof. replace 16 with (4 * 4) by lra. apply sqrt_square. lra. Qed.

Lemma sqrt_4 : sqrt 4 = 2.
Proof. replace 4 with (2 * 2) by lra. apply sqrt_square. lra. Qed.

Lemma solve_ex_two : solve_quadratic_equation 1 0 (-4) = Ok [2; -2].
Proof.
  destruct (solve_two_nonpos 1 0 (-4)) as [_ E]; try lra.
  rewrite E. replace (0 * 0 - 4 * 1 * -4) with 16 by lra. rewrite sqrt_16.
  do 2 f_equal; [lra | f_equal; lra].
Qed.

Lemma solve_ex_one : solve_quadratic_equation 1 (-2) 1 = Ok [1].
Proof.
  rewrite solve_one by lra. do 2 f_equal. lra.
Qed.

Lemma solve_ex_none : solve_quadratic_equation 1 0 4 = Ok [].
Proof. apply solve_none. lra. Qed.

(** C1: for [a <> 0] the solver returns no root when the discriminant
    [b*b - 4*a*c] is negative, the root [-b/(2*a)] when it is zero, and the
    two roots [q/a] and [c/q] when it is positive, where
    [q = -0.5*(b + sqrt delta)] if [b > 0] and [q = -0.5*(b - sqrt delta)]
    otherwise.  On [(1, 0, -4)] it returns [2] and [-2], on [(1, -2, 1)] the
    root [1], on [(1, 0, 4)] nothing. *)
Theorem solve_quadratic_equation_spec (a b c : R) :
  a <> 0 ->
  (b * b - 4 * a * c < 0 -> solve_quadratic_equation a b c = Ok []) /\
  (b * b - 4 * a * c = 0 ->
     solve_quadratic_equation a b c = Ok [- b / (2 * a)]) /\
  (0 < b * b - 4 * a * c ->
     exists q,
       (0 < b -> q = -0.5 * (b + sqrt (b * b - 4 * a * c))) /\
       (b <= 0 -> q = -0.5 * (b - sqrt (b * b - 4 * a * c))) /\
       solve_quadratic_equation a b c = Ok [q / a; c / q]) /\
  solve_quadratic_equation 1 0 (-4) = Ok [2; -2] /\
  solve_quadratic_equation 1 (-2) 1 = Ok [1] /\
  solve_quadratic_equation 1 0 4 = Ok [].
Proof.
  intros Ha.
  split; [apply solve_none |].
  split; [apply solve_one; assumption |].
  split.
  - intros Hd. destruct (Rlt_le_dec 0 b) as [Hb | Hb].
    + destruct (solve_two_pos a b c Ha Hd Hb) as [_ E].
      exists (-0.5 * (b + sqrt (b * b - 4 * a * c))).
      split; [reflexivity | split; [lra | exact E]].
    + destruct (solve_two_nonpos a b c Ha Hd Hb) as [_ E].
      exists (-0.5 * (b - sqrt (b * b - 4 * a * c))).
      split; [lra | split; [reflexivity | exact E]].
  - split; [exact solve_ex_two | split; [exact solve_ex_one | exact solve_ex_none]].
Qed.

Lemma solve_quadratic_equation_spec_witness :
  1 <> 0 /\ solve_quadratic_equation 1 (-3) 2 = Ok [2; 1].
Proof.
  split; [lra |].
  destruct (solve_quadratic_equation_spec 1 (-3) 2) as (_ & _ & H & _); [lra |].
  destruct H as (q & _ & Hq & E); [lra |].
  rewrite E. specialize (Hq ltac:(lra)).
  replace (-3 * -3 - 4 * 1 * 2) with (1 * 1) in Hq by lra.
  rewrite sqrt_square in Hq by lra.
  replace q with 2 by lra.
  do 2 f_equal; [lra | f_equal; lra].
Defined.

(** C9: for [a <> 0] the solver divides by nothing that is zero.  With a
    positive discriminant the term [q] it divides [c] by is not zero, whichever
    sign is chosen for it; with a zero discriminant the divisor [2*a] is not
    zero; so the solver returns a list of roots for every [b] and [c]. *)
Theorem solve_quadratic_equation_total (a b c : R) :
  a <> 0 ->
  (0 < b * b - 4 * a * c -> 0 < b ->
     -0.5 * (b + sqrt (b * b - 4 * a * c)) <> 0) /\
  (0 < b * b - 4 * a * c -> b <= 0 ->
     -0.5 * (b - sqrt (b * b - 4 * a * c)) <> 0) /\
  2 * a <> 0 /\
  exists roots, solve_quadratic_equation a b c = Ok roots.
Proof.
  intros Ha.
  split.
  { intros Hd Hb. destruct (solve_two_pos a b c Ha Hd Hb) as [H _]. lra. }
  split.
  { intros Hd Hb. destruct (solve_two_nonpos a b c Ha Hd Hb) as [H _]. lra. }
  split; [lra |].
  apply solve_returns. exact Ha.
Qed.

Lemma solve_quadratic_equation_total_witness :
  2 <> 0 /\ exists roots, solve_quadratic_equation 2 3 (-5) = Ok roots.
Proof.
  split; [lra |].
  apply (solve_quadratic_equation_total 2 3 (-5)). lra.
Defined.

(** ** [is_angle] *)

Lemma PI_lt_180 : 2 * PI < 360.
Proof. pose proof PI_4. lra. Qed.

(** C10: [is_angle] answers true exactly when the angle lies between the
    lower and the upper limit.  The upper limit is 360 in degrees, [2*pi] in
    radians and infinite without [limit_to_circle]; with [limit_to_circle] and
    [allow_negative] the lower limit is -360 in degrees and in radians alike,
    so that in radians every angle of [[-360, -2*pi)] is accepted. *)
Theorem is_angle_spec (in_degrees allow_negative limit_to_circle : bool) :
  (forall x : R,
     is_angle (Fin x) in_degrees allow_negative limit_to_circle = true <->
     (if limit_to_circle
      then (if allow_negative then -360 <= x else 0 <= x)
      else (if allow_negative then True else 0 <= x)) /\
     (if limit_to_circle
      then (if in_degrees then x <= 360 else x <= 2 * PI)
      else True)) /\
  is_angle PosInf in_degrees allow_negative limit_to_circle
    = negb limit_to_circle /\
  is_angle NegInf in_degrees allow_negative limit_to_circle
    = allow_negative && negb limit_to_circle /\
  (forall x : R, -360 <= x < - (2 * PI) ->
     is_angle (Fin x) false true true = true) /\
  -360 < - (2 * PI).
Proof.
  split.
  { intros x. unfold is_angle.
    destruct limit_to_circle, allow_negative, in_degrees; cbn [xle];
      rewrite ?andb_true_iff, ?float_le_iff; intuition lra. }
  split.
  { unfold is_angle.
    destruct limit_to_circle, allow_negative, in_degrees; reflexivity. }
  split.
  { unfold is_angle.
    destruct limit_to_circle, allow_negative, in_degrees; reflexivity. }
  split.
  { intros x [Hlo Hhi]. pose proof PI_RGT_0. unfold is_angle; cbn [xle].
    rewrite !float_le_true by lra. reflexivity. }
  pose proof PI_lt_180. lra.
Qed.

(** ** Ray and sphere *)

Section RaySphere.

Variables ray_origin ray_direction : Vector3.

Let point (t : R) : Vector3 := v3_add ray_origin (v3_scale ray_direction t).

(** The loop appends, in order, the points of the roots that are not
    negative. *)
Lemma loop_keep_hit (t_list : list R) (ret : list Vector3) :
  fold_left (keep_hit ray_origin ray_direction) t_list ret =
  ret ++ map point (filter (fun t => negb (float_lt t 0)) t_list).
Proof.
  revert ret. induction t_list as [| t ts IH]; intros ret; cbn [fold_left filter].
  - cbn [map]. rewrite app_nil_r. reflexivity.
  - rewrite IH. unfold keep_hit, float_ge.
    destruct (Rle_lt_dec 0 t) as [Ht | Ht].
    + rewrite float_le_true, float_lt_false by assumption. cbn [negb map].
      rewrite <- app_assoc. reflexivity.
    + rewrite float_le_false, float_lt_true by assumption. reflexivity.
Qed.

End RaySphere.

(** The coefficients the function hands to the quadratic solver. *)
Lemma ray_intersect_sphere_unfold (ray : Ray) (sphere : Sphere) :
  ray_intersect_sphere ray sphere =
  (t_list <- solve_quadratic_equation 1
       (2 * np_dot3 (ray_direction ray)
                    (v3_sub (ray_position ray) (sphere_position sphere)))
       (np_dot3 (v3_sub (ray_position ray) (sphere_position sphere))
                (v3_sub (ray_position ray) (sphere_position sphere))
        - sphere_radius sphere * sphere_radius sphere) ;;
   Ok (fold_left (keep_hit (ray_position ray) (ray_direction ray)) t_list [])).
Proof. reflexivity. Qed.

Lemma ray_intersect_sphere_coeffs (ray : Ray) (sphere : Sphere) (b c : R) :
  b = 2 * np_dot3 (ray_direction ray)
                  (v3_sub (ray_position ray) (sphere_position sphere)) ->
  c = np_dot3 (v3_sub (ray_position ray) (sphere_position sphere))
              (v3_sub (ray_position ray) (sphere_position sphere))
      - sphere_radius sphere * sphere_radius sphere ->
  ray_intersect_sphere ray sphere =
  (t_list <- solve_quadratic_equation 1 b c ;;
   Ok (fold_left (keep_hit (ray_position ray) (ray_direction ray)) t_list [])).
Proof. intros -> ->. reflexivity. Qed.

(** A ray that starts outside of the sphere and points away from its centre
    meets no point of it. *)
Lemma ray_aimed_away (ray : Ray) (sphere : Sphere) :
  0 < np_dot3 (ray_direction ray)
              (v3_sub (ray_position ray) (sphere_position sphere)) ->
  sphere_radius sphere * sphere_radius sphere <
    np_dot3 (v3_sub (ray_position ray) (sphere_position sphere))
            (v3_sub (ray_position ray) (sphere_position sphere)) ->
  ray_intersect_sphere ray sphere = Ok [].
Proof.
  intros Hb Hc. rewrite ray_intersect_sphere_unfold.
  set (b := 2 * np_dot3 _ _) in *.
  set (c := np_dot3 _ _ - _) in *.
  assert (Hb' : 0 < b) by (subst b; lra).
  assert (Hc' : 0 < c) by (subst c; lra).
  assert (H1 : (1 : R) <> 0) by lra.
  destruct (Rtotal_order (b * b - 4 * 1 * c) 0) as [Hd | [Hd | Hd]].
  - rewrite solve_none by exact Hd. reflexivity.
  - rewrite (solve_one 1 b c H1 Hd). cbn [bind fold_left].
    unfold keep_hit. rewrite float_ge_false by lra. reflexivity.
  - destruct (solve_two_pos 1 b c H1 Hd Hb') as [Hq E].
    rewrite E. cbn [bind fold_left]. unfold keep_hit.
    set (q := -0.5 * (b + sqrt (b * b - 4 * 1 * c))) in *.
    assert (Hcq : c / q < 0).
    { unfold Rdiv. assert (/ q < 0) by (apply Rinv_lt_0_compat; exact Hq). nra. }
    rewrite !float_ge_false by (try exact Hcq; lra). reflexivity.
Qed.

Lemma ray_example_hit :
  ray_intersect_sphere (mkRay (vec3 0 0 (-10)) (vec3 0 0 1))
                       (mkSphere (vec3 0 0 0) 1)
  = Ok [vec3 0 0 1; vec3 0 0 (-1)].
Proof.
  rewrite (ray_intersect_sphere_coeffs _ _ (-20) 99);
    [| unfold np_dot3, v3_sub;
       cbn [ray_position ray_direction sphere_position sphere_radius vx vy vz];
       lra ..].
  cbn [ray_position ray_direction].
  destruct (solve_two_nonpos 1 (-20) 99) as [_ E]; try lra.
  rewrite E.
  replace (-20 * -20 - 4 * 1 * 99) with 4 by lra. rewrite sqrt_4.
  replace (-0.5 * (-20 - 2)) with 11 by lra.
  cbn [bind fold_left]. unfold keep_hit.
  rewrite (float_ge_true (99 / 11) 0), (float_ge_true (11 / 1) 0) by lra.
  unfold v3_add, v3_scale; cbn [app vx vy vz].
  do 2 f_equal; [f_equal; lra | f_equal; f_equal; lra].
Qed.

Lemma ray_example_away :
  ray_intersect_sphere (mkRay (vec3 0 0 (-10)) (vec3 0 0 (-1)))
                       (mkSphere (vec3 0 0 0) 1)
  = Ok [].
Proof.
  apply ray_aimed_away; unfold np_dot3, v3_sub;
    cbn [ray_position ray_direction sphere_position sphere_radius vx vy vz];
    lra.
Qed.

(** C4: [ray_intersect_sphere] hands the solver [a = 1],
    [b = 2*dot(direction, origin - center)] and
    [c = |origin - center|^2 - radius^2], drops every root [t < 0] and returns
    [origin + direction*t] for each root that is left, in the order of the
    roots.  The ray from [(0,0,-10)] along [(0,0,1)] meets the unit sphere at
    the origin in the two points with [z = 1] and [z = -1]; a ray that starts
    outside of a sphere and points away from it, such as the one from
    [(0,0,-10)] along [(0,0,-1)], meets it nowhere.  No use is made of the
    direction being normalized. *)
Theorem ray_intersect_sphere_spec (ray : Ray) (sphere : Sphere) :
  let origin := ray_position ray in
  let direction := ray_direction ray in
  let oc := v3_sub origin (sphere_position sphere) in
  let b := 2 * np_dot3 direction oc in
  let c := np_dot3 oc oc - sphere_radius sphere * sphere_radius sphere in
  (exists t_list,
     solve_quadratic_equation 1 b c = Ok t_list /\
     ray_intersect_sphere ray sphere =
       Ok (map (fun t => v3_add origin (v3_scale direction t))
               (filter (fun t => negb (float_lt t 0)) t_list))) /\
  (0 < np_dot3 direction oc -> 0 < c ->
     ray_intersect_sphere ray sphere = Ok []) /\
  ray_intersect_sphere (mkRay (vec3 0 0 (-10)) (vec3 0 0 1))
                       (mkSphere (vec3 0 0 0) 1)
    = Ok [vec3 0 0 1; vec3 0 0 (-1)] /\
  ray_intersect_sphere (mkRay (vec3 0 0 (-10)) (vec3 0 0 (-1)))
                       (mkSphere (vec3 0 0 0) 1)
    = Ok [].
Proof.
  intros origin direction oc b c.
  split.
  { destruct (solve_returns 1 b c) as (roots & E); [lra |].
    exists roots. split; [exact E |].
    rewrite ray_intersect_sphere_unfold. fold origin direction oc b c.
    rewrite E. cbn [bind]. rewrite loop_keep_hit. reflexivity. }
  split.
  { intros Hb Hc. apply ray_aimed_away; fold origin direction oc; [exact Hb |].
    subst c. lra. }
  split; [exact ray_example_hit | exact ray_example_away].
Qed.

(** ** Quaternions and Euler angles *)

Lemma rad2deg_PI2 : rad2deg (PI / 2) = 90.
Proof. unfold rad2deg. pose proof PI_RGT_0. field. lra. Qed.

Lemma rad2deg_neg_PI2 : rad2deg (- PI / 2) = -90.
Proof. unfold rad2deg. pose proof PI_RGT_0. field. lra. Qed.

Lemma rad2deg_0 : rad2deg 0 = 0.
Proof. unfold rad2deg. pose proof PI_RGT_0. field. lra. Qed.


Section Poles.

Variable q : Quaternion.

Let unit := qx q * qx q + qy q * qy q + qz q * qz q + qw q * qw q.
Let test := qx q * qy q + qz q * qw q.

Lemma unit_nonneg : 0 <= unit.
Proof.
  subst unit. pose proof (Rle_0_sqr (qx q)). pose proof (Rle_0_sqr (qy q)).
  pose proof (Rle_0_sqr (qz q)). pose proof (Rle_0_sqr (qw q)).
  unfold Rsqr in *. lra.
Qed.

Lemma north_pole :
  test > 0.499 * unit ->
  quaternion_to_euler_angles q =
    Ok (vec3 0 (rad2deg (2 * math_atan2 (qx q) (qw q))) 90).
Proof.
  intros H. unfold quaternion_to_euler_angles; cbv zeta.
  fold unit; fold test.
  rewrite float_gt_true by lra. cbn [bind].
  rewrite rad2deg_PI2, rad2deg_0. reflexivity.
Qed.

Lemma south_pole :
  test < -0.499 * unit ->
  quaternion_to_euler_angles q =
    Ok (vec3 0 (rad2deg (-2 * math_atan2 (qx q) (qw q))) (-90)).
Proof.
  intros H. pose proof unit_nonneg.
  unfold quaternion_to_euler_angles; cbv zeta.
  fold unit; fold test.
  rewrite float_gt_false by lra. rewrite float_lt_true by lra. cbn [bind].
  rewrite rad2deg_neg_PI2, rad2deg_0. reflexivity.
Qed.


End Poles.

(** C5: when [x*y + z*w] exceeds [0.499] times [x^2 + y^2 + z^2 + w^2] the
    conversion returns the attitude 90 and the bank 0; when it is below
    [-0.499] times that magnitude it returns the attitude -90 and the bank 0.
    The result is the array [[bank, heading, attitude]], in degrees; the
    heading is twice [atan2 x w], negated at the south pole. *)
Theorem quaternion_to_euler_angles_poles (q : Quaternion) :
  let unit := qx q * qx q + qy q * qy q + qz q * qz q + qw q * qw q in
  let test := qx q * qy q + qz q * qw q in
  (test > 0.499 * unit ->
     quaternion_to_euler_angles q =
       Ok (vec3 0 (rad2deg (2 * math_atan2 (qx q) (qw q))) 90)) /\
  (test < -0.499 * unit ->
     quaternion_to_euler_angles q =
       Ok (vec3 0 (rad2deg (-2 * math_atan2 (qx q) (qw q))) (-90))).
Proof.
  intros unit test. split; [apply north_pole | apply south_pole].
Qed.

Lemma quaternion_to_euler_angles_poles_witness :
  quaternion_to_euler_angles (quat 1 1 0 0)
    = Ok (vec3 0 (rad2deg (2 * math_atan2 1 0)) 90) /\
  quaternion_to_euler_angles (quat 1 (-1) 0 0)
    = Ok (vec3 0 (rad2deg (-2 * math_atan2 1 0)) (-90)).
Proof.
  split.
  - apply (proj1 (quaternion_to_euler_angles_poles (quat 1 1 0 0))).
    cbn [qx qy qz qw]. lra.
  - apply (proj2 (quaternion_to_euler_angles_poles (quat 1 (-1) 0 0))).
    cbn [qx qy qz qw]. lra.
Defined.

Lemma q_dot_neg (p q : Quaternion) : q_dot p (q_neg q) = - q_dot p q.
Proof. unfold q_dot, q_neg; cbn [qx qy qz qw]. ring. Qed.

(** The product with [r] on the right or on the left scales the dot product
    by the real part of [r]. *)
Lemma q_dot_cross_r (q r : Quaternion) :
  q_dot q (q_cross q r) = qw r * q_dot q q.
Proof. unfold q_dot, q_cross; cbn [qx qy qz qw]. ring. Qed.

Lemma q_dot_cross_l (q r : Quaternion) :
  q_dot q (q_cross r q) = qw r * q_dot q q.
Proof. unfold q_dot, q_cross; cbn [qx qy qz qw]. ring. Qed.

Lemma cos_PI4_bound : 0 < cos (PI / 4) <= 3 / 4.
Proof.
  rewrite cos_PI4.
  assert (Hs : 0 < sqrt 2) by (apply sqrt_lt_R0; lra).
  assert (Hss : sqrt 2 * sqrt 2 = 2) by (apply sqrt_sqrt; lra).
  assert (E : 1 / sqrt 2 * sqrt 2 = 1) by (field; lra).
  assert (E2 : 1 / sqrt 2 * (sqrt 2 * sqrt 2) = sqrt 2)
    by (rewrite <- Rmult_assoc, E; ring).
  rewrite Hss in E2.
  split; nra.
Qed.

Lemma quarter_turn_real_part (axis : Vector3) :
  qw (q_axis_rotation axis (PI / 2)) = cos (PI / 4).
Proof.
  unfold q_axis_rotation; cbn [qw].
  replace (PI / 2 / 2) with (PI / 4) by field. reflexivity.
Qed.

Lemma quaternion_are_equal_iff (q1 q2 : Quaternion) (epsilon : R) :
  quaternion_are_equal q1 q2 (Some epsilon) = true <->
  Rabs (q_dot q1 q2) > 1 - epsilon.
Proof.
  unfold quaternion_are_equal, float_gt, math_fabs. rewrite float_lt_iff. tauto.
Qed.

(** C6: [quaternion_are_equal q1 q2 epsilon] is true exactly when
    [|dot(q1, q2)| > 1 - epsilon], and [epsilon] is [1e-12] when it is left
    out.  With that default a unit quaternion [q] is equal to [q] and to
    [-q], and is not equal to its product, on either side, with a rotation by
    90 degrees about any axis. *)
Theorem quaternion_are_equal_spec :
  (forall q1 q2 epsilon,
     quaternion_are_equal q1 q2 (Some epsilon) = true <->
     Rabs (q_dot q1 q2) > 1 - epsilon) /\
  (forall q1 q2,
     quaternion_are_equal q1 q2 None
     = quaternion_are_equal q1 q2 (Some (1 / 10 ^ 12))) /\
  (forall q, q_dot q q = 1 ->
     quaternion_are_equal q q None = true /\
     quaternion_are_equal q (q_neg q) None = true /\
     (forall axis,
        quaternion_are_equal q (q_cross q (q_axis_rotation axis (PI / 2)))
          None = false /\
        quaternion_are_equal q (q_cross (q_axis_rotation axis (PI / 2)) q)
          None = false)).
Proof.
  assert (Hdefault : forall q1 q2,
            quaternion_are_equal q1 q2 None
            = quaternion_are_equal q1 q2 (Some (1 / 10 ^ 12))).
  { intros q1 q2. unfold quaternion_are_equal. do 2 f_equal. lra. }
  split; [exact quaternion_are_equal_iff |].
  split; [exact Hdefault |].
  intros q Hq.
  split.
  { rewrite Hdefault. apply quaternion_are_equal_iff. rewrite Hq, Rabs_R1. lra. }
  split.
  { rewrite Hdefault. apply quaternion_are_equal_iff.
    rewrite q_dot_neg, Hq, Rabs_Ropp, Rabs_R1. lra. }
  intros axis. pose proof cos_PI4_bound as [Hc0 Hc1].
  split; unfold quaternion_are_equal, math_fabs;
    rewrite ?q_dot_cross_r, ?q_dot_cross_l, quarter_turn_real_part, Hq, Rmult_1_r;
    rewrite Rabs_pos_eq by lra; apply float_gt_false; lra.
Qed.

Lemma quaternion_are_equal_spec_witness :
  q_dot (quat 0 0 0 1) (quat 0 0 0 1) = 1 /\
  quaternion_are_equal (quat 0 0 0 1) (quat 0 0 0 1) None = true /\
  quaternion_are_equal (quat 0 0 0 1) (q_neg (quat 0 0 0 1)) None = true /\
  quaternion_are_equal (quat 0 0 0 1)
    (q_cross (quat 0 0 0 1) (q_axis_rotation (vec3 0 1 0) (PI / 2)))
    None = false.
Proof.
  assert (H : q_dot (quat 0 0 0 1) (quat 0 0 0 1) = 1)
    by (unfold q_dot; cbn [qx qy qz qw]; lra).
  destruct quaternion_are_equal_spec as (_ & _ & Hq).
  destruct (Hq (quat 0 0 0 1) H) as (H1 & H2 & H3).
  split; [exact H |].
  split; [exact H1 |].
  split; [exact H2 |].
  exact (proj1 (H3 (vec3 0 1 0))).
Defined.

(** ** The round trip through quaternions *)

















(** ** Composition of the world matrix *)

Lemma np_dot_vm_assoc (v : Vector4) (a b : Matrix44) :
  np_dot_vm v (np_dot a b) = np_dot_vm (np_dot_vm v a) b.
Proof.
  destruct v as [v0 v1 v2 v3].
  destruct a as [[a00 a01 a02 a03] [a10 a11 a12 a13]
                 [a20 a21 a22 a23] [a30 a31 a32 a33]].
  destruct b as [[b00 b01 b02 b03] [b10 b11 b12 b13]
                 [b20 b21 b22 b23] [b30 b31 b32 b33]].
  cbv [np_dot_vm np_dot v4_add v4_scale c0 c1 c2 c3 row0 row1 row2 row3].
  f_equal; ring.
Qed.

(** In the OpenGL reading [self * other] applies [other] first. *)
Lemma gl_apply_mul (m n : Matrix44) (v : Vector4) :
  gl_apply (Matrix44_mul m n) v = gl_apply m (gl_apply n v).
Proof. unfold gl_apply, Matrix44_mul. apply np_dot_vm_assoc. Qed.

Lemma gl_apply_scale (s : Vector3) (v : Vector4) :
  gl_apply (scale_matrix s) v =
  vec4 (vx s * c0 v) (vy s * c1 v) (vz s * c2 v) (c3 v).
Proof.
  destruct v as [v0 v1 v2 v3], s as [sx sy sz].
  cbv [gl_apply np_dot_vm scale_matrix v4_add v4_scale
       c0 c1 c2 c3 row0 row1 row2 row3 vx vy vz].
  f_equal; ring.
Qed.

Lemma gl_apply_translation (p : Vector3) (v : Vector4) :
  gl_apply (translation_matrix p) v =
  vec4 (c0 v + vx p * c3 v) (c1 v + vy p * c3 v) (c2 v + vz p * c3 v) (c3 v).
Proof.
  destruct v as [v0 v1 v2 v3], p as [px py pz].
  cbv [gl_apply np_dot_vm translation_matrix v4_add v4_scale
       c0 c1 c2 c3 row0 row1 row2 row3 vx vy vz].
  f_equal; ring.
Qed.

(** C7: [compose_matrix p q s] is the product, with pyrr's [*], of the
    translation matrix, the rotation matrix of [q] and the scale matrix, in
    this order.  Read in OpenGL's column-major layout and applied to a column
    vector, it scales first, then rotates, then translates.  This holds for
    every quaternion, whatever [matrix44] makes of it. *)
Theorem compose_matrix_order (matrix44 : Quaternion -> Matrix44)
    (p : Vector3) (q : Quaternion) (s : Vector3) :
  compose_matrix matrix44 p q s =
    Matrix44_mul (Matrix44_mul (translation_matrix p) (matrix44 q))
                 (scale_matrix s) /\
  (forall v : Vector4,
     gl_apply (compose_matrix matrix44 p q s) v =
     gl_apply (translation_matrix p)
       (gl_apply (matrix44 q) (gl_apply (scale_matrix s) v))) /\
  (forall v : Vector4,
     gl_apply (scale_matrix s) v =
     vec4 (vx s * c0 v) (vy s * c1 v) (vz s * c2 v) (c3 v)) /\
  (forall v : Vector4,
     gl_apply (translation_matrix p) v =
     vec4 (c0 v + vx p * c3 v) (c1 v + vy p * c3 v) (c2 v + vz p * c3 v)
          (c3 v)).
Proof.
  split; [reflexivity |].
  split.
  { intros v. unfold compose_matrix; cbv zeta. rewrite !gl_apply_mul. reflexivity. }
  split; [apply gl_apply_scale | apply gl_apply_translation].
Qed.

(** ** The frame routine of the renderer *)

Import Renderer.

Lemma seq_emit (e : event) (s : stmt) (tr : list event) :
  seq (emit e) s tr = s (tr ++ [e]).
Proof. reflexivity. Qed.

Lemma seq_pass (s : stmt) (tr : list event) : seq pass s tr = s tr.
Proof. reflexivity. Qed.

Lemma seq_assoc (s1 s2 s3 : stmt) (tr : list event) :
  seq (seq s1 s2) s3 tr = seq s1 (seq s2 s3) tr.
Proof.
  unfold seq. destruct (s1 tr) as [tr1 [[] | e]]; reflexivity.
Qed.

(** The loop body raises nothing, whatever the class of the object. *)
Lemma render_object_run (o : Object3D) (tr : list event) :
  render_object o tr = (tr ++ object_events o, Ok tt).
Proof.
  unfold render_object, object_events, draw_events.
  rewrite !seq_emit.
  destruct (issubclass_type o PlaneObject3D);
    [| destruct (issubclass_type o IcosahedronObject3D);
       [| destruct (issubclass_type o CubeObject3D);
          [| destruct (issubclass_type o CircleObject3D)]]];
    cbn [py_assert exception_truth]; unfold emit, pass;
    rewrite <- ?app_assoc; cbn [app]; rewrite ?app_nil_r; reflexivity.
Qed.

Lemma for_each_render_object (os : list Object3D) (tr : list event) :
  for_each os render_object tr = (tr ++ flat_map object_events os, Ok tt).
Proof.
  revert tr. induction os as [| o os IH]; intros tr; cbn [for_each flat_map].
  - unfold pass. rewrite app_nil_r. reflexivity.
  - unfold seq. rewrite render_object_run, IH, <- app_assoc. reflexivity.
Qed.

(** One call of [_render]: its events, and that it completes. *)
Lemma _render_run (self : Renderer) :
  run (_render self) =
  (refresh_events self ++ camera_view_projection :: draw_phase_events self,
   Ok tt).
Proof.
  unfold run, _render, refresh_events, draw_phase_events.
  rewrite seq_emit.
  destruct (auto_update (scene self)), (_parent (camera self)) as [p |],
    (point_lights (render_list (scene self))) as [| light lights];
    repeat first [rewrite seq_emit | rewrite seq_pass | rewrite seq_assoc];
    rewrite for_each_render_object; cbn [app]; reflexivity.
Qed.

Lemma object_events_no_refresh (os : list Object3D) (e : event) :
  In e (flat_map object_events os) ->
  e <> scene_update_world_matrix /\ e <> camera_update_world_matrix /\
  e <> camera_view_projection.
Proof.
  rewrite in_flat_map. intros (o & _ & H).
  unfold object_events, draw_events in H.
  destruct (issubclass_type o PlaneObject3D),
    (issubclass_type o IcosahedronObject3D),
    (issubclass_type o CubeObject3D),
    (issubclass_type o CircleObject3D);
    cbn [app In] in H;
    repeat (destruct H as [H | H]; [subst e; repeat split; discriminate |]);
    contradiction.
Qed.

Lemma draw_phase_no_refresh (self : Renderer) (e : event) :
  In e (draw_phase_events self) ->
  e <> scene_update_world_matrix /\ e <> camera_update_world_matrix /\
  e <> camera_view_projection.
Proof.
  unfold draw_phase_events. rewrite !in_app_iff.
  intros [H | [H | H]].
  - cbn [In] in H.
    repeat (destruct H as [H | H]; [subst e; repeat split; discriminate |]);
      contradiction.
  - destruct (point_lights (render_list (scene self))); cbn [In] in H;
      repeat (destruct H as [H | H]; [subst e; repeat split; discriminate |]);
      contradiction.
  - apply (object_events_no_refresh _ _ H).
Qed.

(** C8: a call of [_render] completes, and its events split at the one
    computation of the view-projection matrix from the camera's projection
    matrix and the inverse of its world matrix.  Before it
    [scene.update_world_matrix()] is called if and only if
    [scene.auto_update] is set, and [camera.update_world_matrix()] is called
    if and only if the camera has no parent; after it neither is called. *)
Theorem render_refresh_order (self : Renderer) :
  exists before after,
    run (_render self) = (before ++ camera_view_projection :: after, Ok tt) /\
    ~ In camera_view_projection before /\
    ~ In camera_view_projection after /\
    (In scene_update_world_matrix before <->
       auto_update (scene self) = true) /\
    (In camera_update_world_matrix before <->
       _parent (camera self) = None) /\
    ~ In scene_update_world_matrix after /\
    ~ In camera_update_world_matrix after.
Proof.
  exists (refresh_events self), (draw_phase_events self).
  split; [apply _render_run |].
  assert (Hafter : forall e, In e (draw_phase_events self) ->
            e <> scene_update_world_matrix /\ e <> camera_update_world_matrix /\
            e <> camera_view_projection)
    by apply draw_phase_no_refresh.
  repeat split.
  - unfold refresh_events.
    destruct (auto_update (scene self)), (_parent (camera self));
      cbn [app In]; intuition discriminate.
  - intros H. apply Hafter in H. tauto.
  - unfold refresh_events.
    destruct (auto_update (scene self)), (_parent (camera self));
      cbn [app In]; intuition discriminate.
  - intros H. unfold refresh_events. rewrite H. cbn [app In]. tauto.
  - unfold refresh_events.
    destruct (auto_update (scene self)), (_parent (camera self));
      cbn [app In]; intuition discriminate.
  - intros H. unfold refresh_events. rewrite H.
    destruct (auto_update (scene self)); cbn [app In]; tauto.
  - intros H. apply Hafter in H. tauto.
  - intros H. apply Hafter in H. tauto.
Qed.

(** C3, on the code: for a geometry object that derives from none of
    [PlaneObject3D], [IcosahedronObject3D], [CubeObject3D] and
    [CircleObject3D] the loop body sets the three uniforms, asserts an
    exception instance, which is true, and goes on: nothing is drawn and
    nothing is raised.  No call of [_render] raises; the frame of
    [custom_mesh_renderer] ends after the uniforms of its mesh. *)
Theorem render_unknown_geometry_not_raised :
  (forall (o : Object3D) (tr : list event),
     issubclass_type o PlaneObject3D = false ->
     issubclass_type o IcosahedronObject3D = false ->
     issubclass_type o CubeObject3D = false ->
     issubclass_type o CircleObject3D = false ->
     render_object o tr =
       (tr ++ [model_matrix_write o; object_color_set o; model_size_set o],
        Ok tt)) /\
  (forall self : Renderer, snd (run (_render self)) = Ok tt) /\
  run (_render custom_mesh_renderer) =
    ([ctx_clear; scene_update_world_matrix; camera_update_world_matrix;
      camera_view_projection; view_projection_matrix_write; ambient_light_set;
      model_matrix_write custom_mesh; object_color_set custom_mesh;
      model_size_set custom_mesh],
     Ok tt).
Proof.
  split; [| split].
  - intros o tr H1 H2 H3 H4. rewrite render_object_run.
    unfold object_events, draw_events. rewrite H1, H2, H3, H4.
    rewrite app_nil_r. reflexivity.
  - intros self. rewrite _render_run. reflexivity.
  - reflexivity.
Qed.

(** * Further properties of [pysg/math.py] *)

(** ** The roots the solver returns *)

Section QuadraticRoots.

Variables a b c : R.
Hypothesis a_nonzero : a <> 0.

Let delta := b * b - 4 * a * c.

(** The two numbers of the textbook formula. *)
Let root_plus := (- b + sqrt delta) / (2 * a).
Let root_minus := (- b - sqrt delta) / (2 * a).

(** Completing the square. *)
Lemma quadratic_square (r : R) :
  4 * a * (a * r * r + b * r + c) = (2 * a * r + b) * (2 * a * r + b) - delta.
Proof. subst delta. ring. Qed.

Lemma root_iff_formula (r : R) :
  0 < delta ->
  (a * r * r + b * r + c = 0 <-> r = root_plus \/ r = root_minus).
Proof.
  intros Hd. pose proof (sqrt_sqrt delta (Rlt_le _ _ Hd)) as Hss.
  pose proof (quadratic_square r) as Hsq.
  split.
  - intros Hr. rewrite Hr, Rmult_0_r in Hsq.
    assert (Hfac : (2 * a * r + b - sqrt delta) * (2 * a * r + b + sqrt delta) = 0)
      by (ring_simplify; ring_simplify in Hss; lra).
    apply Rmult_integral in Hfac. destruct Hfac as [H | H]; [left | right];
      subst root_plus root_minus; apply Rmult_eq_reg_l with (2 * a); try lra;
      field_simplify; lra.
  - assert (Ha4 : 4 * a <> 0) by lra.
    intros [-> | ->]; apply Rmult_eq_reg_l with (4 * a); try exact Ha4;
      rewrite Rmult_0_r, quadratic_square; subst root_plus root_minus;
      field_simplify; try lra; ring_simplify in Hss; lra.
Qed.

(** The stable form computes the same two numbers as the formula. *)
Lemma stable_form_pos :
  0 < delta -> 0 < b ->
  -0.5 * (b + sqrt delta) / a = root_minus /\
  c / (-0.5 * (b + sqrt delta)) = root_plus.
Proof.
  intros Hd Hb. pose proof (sqrt_sqrt delta (Rlt_le _ _ Hd)) as Hss.
  pose proof (sqrt_lt_R0 delta Hd) as Hs.
  assert (Hc : c = (b * b - sqrt delta * sqrt delta) / (4 * a))
    by (rewrite Hss; subst delta; field; exact a_nonzero).
  replace (-0.5 * (b + sqrt delta)) with (- (b + sqrt delta) / 2) by lra.
  split; subst root_plus root_minus.
  - field. exact a_nonzero.
  - rewrite Hc at 1. field. split; [exact a_nonzero | lra].
Qed.

Lemma stable_form_nonpos :
  0 < delta -> b <= 0 ->
  -0.5 * (b - sqrt delta) / a = root_plus /\
  c / (-0.5 * (b - sqrt delta)) = root_minus.
Proof.
  intros Hd Hb. pose proof (sqrt_sqrt delta (Rlt_le _ _ Hd)) as Hss.
  pose proof (sqrt_lt_R0 delta Hd) as Hs.
  assert (Hc : c = (b * b - sqrt delta * sqrt delta) / (4 * a))
    by (rewrite Hss; subst delta; field; exact a_nonzero).
  replace (-0.5 * (b - sqrt delta)) with (- (b - sqrt delta) / 2) by lra.
  split; subst root_plus root_minus.
  - field. exact a_nonzero.
  - rewrite Hc at 1. field. split; [exact a_nonzero | lra].
Qed.

Lemma formula_roots_differ : 0 < delta -> root_plus <> root_minus.
Proof.
  intros Hd E. pose proof (sqrt_lt_R0 delta Hd) as Hs.
  subst root_plus root_minus.
  apply (Rmult_eq_compat_l (2 * a)) in E.
  unfold Rdiv in E. rewrite <- !Rmult_assoc, !Rinv_r_simpl_m in E by lra. lra.
Qed.

(** The list the solver returns holds the real roots of the polynomial, each
    of them once. *)
Lemma solve_roots :
  exists roots,
    solve_quadratic_equation a b c = Ok roots /\
    NoDup roots /\
    forall r, In r roots <-> a * r * r + b * r + c = 0.
Proof.
  destruct (Rtotal_order delta 0) as [Hd | [Hd | Hd]].
  - exists []. split; [apply solve_none; exact Hd |].
    split; [constructor |].
    intros r. split; [intros [] |].
    intros Hr. pose proof (quadratic_square r) as Hsq.
    rewrite Hr, Rmult_0_r in Hsq.
    pose proof (Rle_0_sqr (2 * a * r + b)) as Hp. unfold Rsqr in Hp.
    cbn [In]. lra.
  - exists [- b / (2 * a)]. split; [apply solve_one; assumption |].
    split; [repeat constructor; intros [] |].
    intros r. pose proof (quadratic_square r) as Hsq. rewrite Hd in Hsq.
    cbn [In]. split.
    + intros [<- | []]. apply Rmult_eq_reg_l with (4 * a); [| lra].
      rewrite Rmult_0_r, quadratic_square, Hd. field. exact a_nonzero.
    + intros Hr. left. rewrite Hr, Rmult_0_r in Hsq.
      assert (H0 : 2 * a * r + b = 0).
      { destruct (Rmult_integral (2 * a * r + b) (2 * a * r + b)); lra. }
      apply Rmult_eq_reg_l with (2 * a); [| lra]. field_simplify; lra.
  - pose proof (formula_roots_differ Hd) as Hne.
    destruct (Rlt_le_dec 0 b) as [Hb | Hb].
    + destruct (solve_two_pos a b c a_nonzero Hd Hb) as [_ E].
      destruct (stable_form_pos Hd Hb) as [E1 E2].
      fold delta in E. rewrite E1, E2 in E.
      exists [root_minus; root_plus]. split; [exact E |].
      split.
      * repeat constructor; cbn [In]; intuition.
      * intros r. rewrite (root_iff_formula r Hd). cbn [In]. intuition.
    + destruct (solve_two_nonpos a b c a_nonzero Hd Hb) as [_ E].
      destruct (stable_form_nonpos Hd Hb) as [E1 E2].
      fold delta in E. rewrite E1, E2 in E.
      exists [root_plus; root_minus]. split; [exact E |].
      split.
      * repeat constructor; cbn [In]; intuition.
      * intros r. rewrite (root_iff_formula r Hd). cbn [In]. intuition.
Qed.

End QuadraticRoots.

(** X1: for [a <> 0] the solver returns a list that holds exactly the real
    roots of [a*x^2 + b*x + c], each root once. *)
Theorem solve_quadratic_equation_roots (a b c : R) :
  a <> 0 ->
  exists roots,
    solve_quadratic_equation a b c = Ok roots /\
    NoDup roots /\
    forall r, In r roots <-> a * r * r + b * r + c = 0.
Proof. intros Ha. apply solve_roots. exact Ha. Qed.

Lemma solve_quadratic_equation_roots_witness :
  1 <> 0 /\
  exists roots,
    solve_quadratic_equation 1 (-3) 2 = Ok roots /\
    NoDup roots /\
    forall r, In r roots <-> 1 * r * r + -3 * r + 2 = 0.
Proof.
  split; [lra |].
  apply (solve_quadratic_equation_roots 1 (-3) 2). lra.
Defined.


(** ** The points [ray_intersect_sphere] returns *)

Section RayPoints.

Variables (ray : Ray) (sphere : Sphere).

Let origin := ray_position ray.
Let direction := ray_direction ray.
Let oc := v3_sub origin (sphere_position sphere).
Let b := 2 * np_dot3 direction oc.
Let c := np_dot3 oc oc - sphere_radius sphere * sphere_radius sphere.
Let point (t : R) : Vector3 := v3_add origin (v3_scale direction t).


(** The result in terms of the roots of the solver. *)
Lemma ray_points_of_roots (roots : list R) :
  solve_quadratic_equation 1 b c = Ok roots ->
  ray_intersect_sphere ray sphere =
    Ok (map point (filter (fun t => negb (float_lt t 0)) roots)).
Proof.
  intros E. rewrite ray_intersect_sphere_unfold.
  fold origin direction oc b c. rewrite E. cbn [bind].
  rewrite loop_keep_hit. reflexivity.
Qed.



Lemma ray_from_inside :
  np_dot3 oc oc < sphere_radius sphere * sphere_radius sphere ->
  exists t, 0 < t /\ ray_intersect_sphere ray sphere = Ok [point t].
Proof.
  intros Hin. assert (Hc : c < 0) by (subst c; lra).
  assert (Hd : 0 < b * b - 4 * 1 * c) by nra.
  assert (H1 : (1 : R) <> 0) by lra.
  destruct (Rlt_le_dec 0 b) as [Hb | Hb].
  - destruct (solve_two_pos 1 b c H1 Hd Hb) as [Hq E].
    set (q := -0.5 * (b + sqrt (b * b - 4 * 1 * c))) in *.
    assert (Hcq : 0 < c / q).
    { unfold Rdiv. assert (/ q < 0) by (apply Rinv_lt_0_compat; exact Hq). nra. }
    exists (c / q). split; [exact Hcq |].
    rewrite (ray_points_of_roots _ E). cbn [filter].
    rewrite float_lt_true by lra. rewrite float_lt_false by lra.
    reflexivity.
  - destruct (solve_two_nonpos 1 b c H1 Hd Hb) as [Hq E].
    set (q := -0.5 * (b - sqrt (b * b - 4 * 1 * c))) in *.
    assert (Hcq : c / q < 0).
    { unfold Rdiv. assert (0 < / q) by (apply Rinv_0_lt_compat; exact Hq). nra. }
    exists (q / 1). split; [lra |].
    rewrite (ray_points_of_roots _ E). cbn [filter].
    rewrite float_lt_false by lra. rewrite float_lt_true by lra.
    reflexivity.
Qed.

Lemma ray_two_points (p1 p2 : Vector3) :
  ray_intersect_sphere ray sphere = Ok [p1; p2] ->
  exists t1 t2,
    0 <= t2 /\ t2 < t1 /\ p1 = point t1 /\ p2 = point t2.
Proof.
  assert (H1 : (1 : R) <> 0) by lra.
  destruct (Rtotal_order (b * b - 4 * 1 * c) 0) as [Hd | [Hd | Hd]].
  - rewrite (ray_points_of_roots _ (solve_none 1 b c Hd)). discriminate.
  - rewrite (ray_points_of_roots _ (solve_one 1 b c H1 Hd)). cbn [filter].
    destruct (negb (float_lt (- b / (2 * 1)) 0)); discriminate.
  - destruct (Rlt_le_dec 0 b) as [Hb | Hb].
    + destruct (solve_two_pos 1 b c H1 Hd Hb) as [Hq E].
      rewrite (ray_points_of_roots _ E). cbn [filter].
      rewrite float_lt_true by lra. cbn [negb].
      destruct (negb (float_lt _ 0)); discriminate.
    + destruct (solve_two_nonpos 1 b c H1 Hd Hb) as [Hq E].
      destruct (stable_form_nonpos 1 b c H1 Hd Hb) as [E1 E2].
      pose proof (sqrt_lt_R0 _ Hd) as Hs.
      rewrite (ray_points_of_roots _ E). cbn [filter].
      rewrite float_lt_false by lra. cbn [negb].
      destruct (Rlt_le_dec (c / (-0.5 * (b - sqrt (b * b - 4 * 1 * c)))) 0)
        as [Hneg | Hpos].
      * rewrite float_lt_true by exact Hneg. discriminate.
      * rewrite float_lt_false by exact Hpos. cbn [negb map].
        intros H. injection H as <- <-.
        eexists _, _. split; [exact Hpos |]. split; [| split; reflexivity].
        rewrite E1, E2. lra.
Qed.

End RayPoints.



(** X4: a ray that starts strictly inside the sphere meets it in exactly one
    point, ahead of its origin, whatever its direction. *)
Theorem ray_intersect_sphere_from_inside (ray : Ray) (sphere : Sphere) :
  np_dot3 (v3_sub (ray_position ray) (sphere_position sphere))
          (v3_sub (ray_position ray) (sphere_position sphere))
    < sphere_radius sphere * sphere_radius sphere ->
  exists t,
    0 < t /\
    ray_intersect_sphere ray sphere =
      Ok [v3_add (ray_position ray) (v3_scale (ray_direction ray) t)].
Proof. apply ray_from_inside. Qed.

Lemma ray_intersect_sphere_from_inside_witness :
  exists t,
    0 < t /\
    ray_intersect_sphere (mkRay (vec3 0 0 0) (vec3 1 0 0))
                         (mkSphere (vec3 0 0 0) 2)
    = Ok [v3_add (vec3 0 0 0) (v3_scale (vec3 1 0 0) t)].
Proof.
  apply (ray_intersect_sphere_from_inside
           (mkRay (vec3 0 0 0) (vec3 1 0 0)) (mkSphere (vec3 0 0 0) 2)).
  cbv [np_dot3 v3_sub ray_position sphere_position sphere_radius vx vy vz]. lra.
Defined.

(** X5: when two points are returned the first one is the farther one: the
    list is not ordered by distance from the origin of the ray. *)
Theorem ray_intersect_sphere_far_first (ray : Ray) (sphere : Sphere)
    (p1 p2 : Vector3) :
  ray_intersect_sphere ray sphere = Ok [p1; p2] ->
  exists t1 t2,
    0 <= t2 /\ t2 < t1 /\
    p1 = v3_add (ray_position ray) (v3_scale (ray_direction ray) t1) /\
    p2 = v3_add (ray_position ray) (v3_scale (ray_direction ray) t2).
Proof. apply ray_two_points. Qed.

Lemma ray_intersect_sphere_far_first_witness :
  exists t1 t2,
    0 <= t2 /\ t2 < t1 /\
    vec3 0 0 1 = v3_add (vec3 0 0 (-10)) (v3_scale (vec3 0 0 1) t1) /\
    vec3 0 0 (-1) = v3_add (vec3 0 0 (-10)) (v3_scale (vec3 0 0 1) t2).
Proof.
  apply (ray_intersect_sphere_far_first
           (mkRay (vec3 0 0 (-10)) (vec3 0 0 1)) (mkSphere (vec3 0 0 0) 1)).
  exact ray_example_hit.
Defined.

(** ** The flags of [is_angle] *)

(** X6: each flag of [is_angle] only widens or narrows the accepted set: an
    angle accepted within the circle is accepted without the limit, an angle
    accepted without [allow_negative] is accepted with it, and an angle
    accepted in radians is accepted in degrees. *)
Theorem is_angle_flags_monotone (angle : xreal)
    (in_degrees allow_negative limit_to_circle : bool) :
  (is_angle angle in_degrees allow_negative true = true ->
   is_angle angle in_degrees allow_negative false = true) /\
  (is_angle angle in_degrees false limit_to_circle = true ->
   is_angle angle in_degrees true limit_to_circle = true) /\
  (is_angle angle false allow_negative limit_to_circle = true ->
   is_angle angle true allow_negative limit_to_circle = true).
Proof.
  pose proof PI_lt_180 as Hpi. pose proof PI_RGT_0 as Hpos.
  unfold is_angle.
  repeat split;
    destruct angle as [| x |], in_degrees, allow_negative, limit_to_circle;
    cbn [xle andb]; try reflexivity; try discriminate;
    rewrite ?andb_true_iff, ?float_le_iff; intros H;
    repeat split; try tauto; lra.
Qed.

(** X7: with [allow_negative] the accepted set is symmetric about zero in
    degrees and without the limit, but not in radians within the circle:
    there every angle of [(2*pi, 360]] is rejected and its negative is
    accepted. *)
Theorem is_angle_symmetry (x : R) :
  (forall limit_to_circle,
     is_angle (Fin (- x)) true true limit_to_circle
     = is_angle (Fin x) true true limit_to_circle) /\
  is_angle (Fin (- x)) false true false = is_angle (Fin x) false true false /\
  (2 * PI < x <= 360 ->
     is_angle (Fin x) false true true = false /\
     is_angle (Fin (- x)) false true true = true).
Proof.
  pose proof PI_RGT_0 as Hpos.
  split; [| split].
  - intros [|]; [| reflexivity].
    apply eq_true_iff_eq. unfold is_angle; cbn [xle].
    rewrite !andb_true_iff, !float_le_iff. lra.
  - reflexivity.
  - intros [Hlo Hhi]. unfold is_angle; cbn [xle]. split.
    + rewrite (float_le_false x (2 * PI)) by lra. apply andb_false_r.
    + rewrite !float_le_true by lra. reflexivity.
Qed.

Lemma is_angle_symmetry_witness :
  2 * PI < 9 <= 360 /\
  is_angle (Fin 9) false true true = false /\
  is_angle (Fin (- 9)) false true true = true.
Proof.
  assert (H : 2 * PI < 9 <= 360) by (pose proof PI_4; lra).
  split; [exact H |].
  exact (proj2 (proj2 (is_angle_symmetry 9)) H).
Defined.

(** ** More on [quaternion_are_equal] *)

Lemma q_dot_comm (p q : Quaternion) : q_dot p q = q_dot q p.
Proof. unfold q_dot. ring. Qed.

Lemma q_dot_neg_l (p q : Quaternion) : q_dot (q_neg p) q = - q_dot p q.
Proof. unfold q_dot, q_neg; cbn [qx qy qz qw]. ring. Qed.

(** X8: the answer of [quaternion_are_equal] does not depend on the order of
    the two quaternions nor on the sign of either. *)
Theorem quaternion_are_equal_symmetric (q1 q2 : Quaternion)
    (epsilon : option R) :
  quaternion_are_equal q1 q2 epsilon = quaternion_are_equal q2 q1 epsilon /\
  quaternion_are_equal (q_neg q1) q2 epsilon
    = quaternion_are_equal q1 q2 epsilon /\
  quaternion_are_equal q1 (q_neg q2) epsilon
    = quaternion_are_equal q1 q2 epsilon.
Proof.
  unfold quaternion_are_equal, math_fabs; cbv zeta.
  rewrite (q_dot_comm q2 q1), q_dot_neg_l, q_dot_neg, !Rabs_Ropp.
  repeat split; reflexivity.
Qed.





Lemma cos_PI4_lower : 3 / 5 <= cos (PI / 4).
Proof.
  rewrite cos_PI4.
  assert (Hs : 0 < sqrt 2) by (apply sqrt_lt_R0; lra).
  assert (Hss : sqrt 2 * sqrt 2 = 2) by (apply sqrt_sqrt; lra).
  assert (E : 1 / sqrt 2 * sqrt 2 = 1) by (field; lra).
  assert (E2 : 1 / sqrt 2 * (sqrt 2 * sqrt 2) = sqrt 2)
    by (rewrite <- Rmult_assoc, E; ring).
  rewrite Hss in E2. nra.
Qed.

(** X10: the unit norm of the arguments matters.  A quaternion of squared
    norm at most [1 - 1e-12] is not equal to itself, and a quaternion of
    squared norm 2 or more is equal to its product with a rotation by 90
    degrees. *)
Theorem quaternion_are_equal_needs_unit (q : Quaternion) :
  (q_dot q q <= 1 - 1 / 10 ^ 12 -> quaternion_are_equal q q None = false) /\
  (2 <= q_dot q q ->
   forall axis,
     quaternion_are_equal q (q_cross q (q_axis_rotation axis (PI / 2))) None
     = true).
Proof.
  assert (Hnn : 0 <= q_dot q q).
  { unfold q_dot. pose proof (Rle_0_sqr (qx q)). pose proof (Rle_0_sqr (qy q)).
    pose proof (Rle_0_sqr (qz q)). pose proof (Rle_0_sqr (qw q)).
    unfold Rsqr in *. lra. }
  split.
  - intros H. unfold quaternion_are_equal, math_fabs; cbv zeta.
    rewrite Rabs_pos_eq by exact Hnn. apply float_gt_false. lra.
  - intros H axis. pose proof cos_PI4_lower as Hc.
    unfold quaternion_are_equal, math_fabs; cbv zeta.
    rewrite q_dot_cross_r, quarter_turn_real_part.
    rewrite Rabs_pos_eq by nra. apply float_gt_true. nra.
Qed.

Lemma quaternion_are_equal_needs_unit_witness :
  quaternion_are_equal (quat 0 0 0 (1 / 2)) (quat 0 0 0 (1 / 2)) None = false /\
  quaternion_are_equal (quat 0 0 0 2)
    (q_cross (quat 0 0 0 2) (q_axis_rotation (vec3 0 1 0) (PI / 2))) None
  = true.
Proof.
  split.
  - apply (proj1 (quaternion_are_equal_needs_unit (quat 0 0 0 (1 / 2)))).
    unfold q_dot; cbn [qx qy qz qw]. lra.
  - apply (proj2 (quaternion_are_equal_needs_unit (quat 0 0 0 2))).
    unfold q_dot; cbn [qx qy qz qw]. lra.
Defined.

(** ** More on the conversions between Euler angles and quaternions *)













Section EulerRanges.

Variable q : Quaternion.

Let unit := qx q * qx q + qy q * qy q + qz q * qz q + qw q * qw q.
Let test := qx q * qy q + qz q * qw q.


End EulerRanges.



(** Comparisons, [math.atan2] and division under a positive factor. *)
Lemma float_lt_scale (k a b c : R) :
  0 < k -> float_lt (k * a) (c * (k * b)) = float_lt a (c * b).
Proof.
  intros Hk. apply eq_true_iff_eq. rewrite !float_lt_iff. split; intros H.
  - apply Rmult_lt_reg_l with k; [exact Hk |]. lra.
  - replace (c * (k * b)) with (k * (c * b)) by ring.
    apply Rmult_lt_compat_l; assumption.
Qed.

Lemma float_gt_scale (k a b c : R) :
  0 < k -> float_gt (k * a) (c * (k * b)) = float_gt a (c * b).
Proof.
  intros Hk. unfold float_gt. apply eq_true_iff_eq. rewrite !float_lt_iff.
  split; intros H.
  - apply Rmult_lt_reg_l with k; [exact Hk |]. lra.
  - replace (c * (k * b)) with (k * (c * b)) by ring.
    apply Rmult_lt_compat_l; assumption.
Qed.

Lemma float_div_scale (k a b : R) :
  0 < k -> float_div (2 * (k * a)) (k * b) = float_div (2 * a) b.
Proof.
  intros Hk. unfold float_div.
  destruct (Req_dec b 0) as [-> | Hb].
  - rewrite Rmult_0_r, float_eq_true by reflexivity. reflexivity.
  - rewrite !float_eq_false by nra. f_equal. field. lra.
Qed.

Lemma math_atan2_scale (k y x : R) :
  0 < k -> math_atan2 (k * y) (k * x) = math_atan2 y x.
Proof.
  intros Hk. unfold math_atan2.
  assert (Hlt : forall u, float_lt 0 (k * u) = float_lt 0 u).
  { intros u. apply eq_true_iff_eq. rewrite !float_lt_iff. split; nra. }
  assert (Hgt : forall u, float_lt (k * u) 0 = float_lt u 0).
  { intros u. apply eq_true_iff_eq. rewrite !float_lt_iff. split; nra. }
  assert (Hle : forall u, float_le 0 (k * u) = float_le 0 u).
  { intros u. apply eq_true_iff_eq. rewrite !float_le_iff. split; nra. }
  rewrite !Hlt, !Hgt, Hle.
  destruct (Req_dec x 0) as [-> | Hx].
  - rewrite !float_lt_false by lra. reflexivity.
  - replace (k * y / (k * x)) with (y / x) by (field; lra). reflexivity.
Qed.

Section EulerScale.

Variables (k : R) (q : Quaternion).

Let unit := qx q * qx q + qy q * qy q + qz q * qz q + qw q * qw q.
Let test := qx q * qy q + qz q * qw q.

Lemma euler_scale_positive :
  0 < k ->
  quaternion_to_euler_angles (q_scale k q) = quaternion_to_euler_angles q.
Proof.
  intros Hk. assert (HK : 0 < k * k) by nra.
  destruct q as [x y z w].
  unfold quaternion_to_euler_angles, q_scale; cbv zeta; cbn [qx qy qz qw].
  replace (k * x * (k * y) + k * z * (k * w))
    with (k * k * (x * y + z * w)) by ring.
  replace (k * x * (k * x) + k * y * (k * y) + k * z * (k * z) + k * w * (k * w))
    with (k * k * (x * x + y * y + z * z + w * w)) by ring.
  replace (2 * (k * y) * (k * w) - 2 * (k * x) * (k * z))
    with (k * k * (2 * y * w - 2 * x * z)) by ring.
  replace (k * x * (k * x) - k * y * (k * y) - k * z * (k * z) + k * w * (k * w))
    with (k * k * (x * x - y * y - z * z + w * w)) by ring.
  replace (2 * (k * x) * (k * w) - 2 * (k * y) * (k * z))
    with (k * k * (2 * x * w - 2 * y * z)) by ring.
  replace (- (k * x * (k * x)) + k * y * (k * y) - k * z * (k * z)
           + k * w * (k * w))
    with (k * k * (- (x * x) + y * y - z * z + w * w)) by ring.
  rewrite (float_gt_scale _ _ _ _ HK), (float_lt_scale _ _ _ _ HK).
  rewrite (float_div_scale _ _ _ HK).
  rewrite !(math_atan2_scale _ _ _ HK), (math_atan2_scale _ _ _ Hk).
  reflexivity.
Qed.

Lemma euler_negation_between_poles :
  -0.499 * unit <= test <= 0.499 * unit ->
  quaternion_to_euler_angles (q_neg q) = quaternion_to_euler_angles q.
Proof.
  subst unit test. destruct q as [x y z w]. cbn [qx qy qz qw]. intros [Hlo Hhi].
  unfold quaternion_to_euler_angles, q_neg; cbv zeta; cbn [qx qy qz qw].
  replace (- x * - y + - z * - w) with (x * y + z * w) by ring.
  replace (- x * - x + - y * - y + - z * - z + - w * - w)
    with (x * x + y * y + z * z + w * w) by ring.
  replace (2 * - y * - w - 2 * - x * - z) with (2 * y * w - 2 * x * z) by ring.
  replace (- x * - x - - y * - y - - z * - z + - w * - w)
    with (x * x - y * y - z * z + w * w) by ring.
  replace (2 * - x * - w - 2 * - y * - z) with (2 * x * w - 2 * y * z) by ring.
  replace (- (- x * - x) + - y * - y - - z * - z + - w * - w)
    with (- (x * x) + y * y - z * z + w * w) by ring.
  rewrite !float_gt_false by lra. rewrite !float_lt_false by lra.
  reflexivity.
Qed.

End EulerScale.

(** X15: the angles of a quaternion do not change when it is multiplied by a
    positive number, and between the poles they do not change when it is
    negated: the norm of the argument is taken into account. *)
Theorem quaternion_to_euler_angles_scale (k : R) (q : Quaternion) :
  (0 < k ->
   quaternion_to_euler_angles (q_scale k q) = quaternion_to_euler_angles q) /\
  (-0.499 * q_dot q q <= qx q * qy q + qz q * qw q <= 0.499 * q_dot q q ->
   quaternion_to_euler_angles (q_neg q) = quaternion_to_euler_angles q).
Proof.
  split; [apply euler_scale_positive | apply euler_negation_between_poles].
Qed.

Lemma quaternion_to_euler_angles_scale_witness :
  quaternion_to_euler_angles (q_scale 3 (quat 0 0 0 1))
    = quaternion_to_euler_angles (quat 0 0 0 1) /\
  quaternion_to_euler_angles (q_neg (quat 0 0 0 1))
    = quaternion_to_euler_angles (quat 0 0 0 1).
Proof.
  split.
  - apply (proj1 (quaternion_to_euler_angles_scale 3 (quat 0 0 0 1))). lra.
  - apply (proj2 (quaternion_to_euler_angles_scale 3 (quat 0 0 0 1))).
    unfold q_dot; cbn [qx qy qz qw]. lra.
Defined.

(** ** Gimbal lock *)











(** ** More on [compose_matrix] *)

Lemma np_dot_assoc (a b c : Matrix44) :
  np_dot (np_dot a b) c = np_dot a (np_dot b c).
Proof.
  change (np_dot (np_dot a b) c)
    with (mat44 (np_dot_vm (np_dot_vm (row0 a) b) c)
                (np_dot_vm (np_dot_vm (row1 a) b) c)
                (np_dot_vm (np_dot_vm (row2 a) b) c)
                (np_dot_vm (np_dot_vm (row3 a) b) c)).
  change (np_dot a (np_dot b c))
    with (mat44 (np_dot_vm (row0 a) (np_dot b c))
                (np_dot_vm (row1 a) (np_dot b c))
                (np_dot_vm (row2 a) (np_dot b c))
                (np_dot_vm (row3 a) (np_dot b c))).
  rewrite !np_dot_vm_assoc. reflexivity.
Qed.

Lemma np_dot_vm_identity (v : Vector4) : np_dot_vm v identity_matrix = v.
Proof.
  destruct v as [v0 v1 v2 v3].
  cbv [np_dot_vm identity_matrix v4_add v4_scale c0 c1 c2 c3 row0 row1 row2 row3].
  f_equal; ring.
Qed.

Lemma np_dot_identity_r (a : Matrix44) : np_dot a identity_matrix = a.
Proof.
  destruct a as [a0 a1 a2 a3]. unfold np_dot; cbn [row0 row1 row2 row3].
  rewrite !np_dot_vm_identity. reflexivity.
Qed.

Lemma np_dot_identity_l (a : Matrix44) : np_dot identity_matrix a = a.
Proof.
  destruct a as [[a00 a01 a02 a03] [a10 a11 a12 a13]
                 [a20 a21 a22 a23] [a30 a31 a32 a33]].
  cbv [np_dot np_dot_vm identity_matrix v4_add v4_scale
       c0 c1 c2 c3 row0 row1 row2 row3].
  f_equal; f_equal; ring.
Qed.

Lemma translation_matrix_zero : translation_matrix (vec3 0 0 0) = identity_matrix.
Proof. reflexivity. Qed.

Lemma scale_matrix_one : scale_matrix (vec3 1 1 1) = identity_matrix.
Proof. reflexivity. Qed.

(** X17: with the position [(0, 0, 0)] and the scale [(1, 1, 1)] the composed
    matrix is the rotation matrix of the quaternion, unchanged. *)
Theorem compose_matrix_neutral (matrix44 : Quaternion -> Matrix44)
    (q : Quaternion) :
  compose_matrix matrix44 (vec3 0 0 0) q (vec3 1 1 1) = matrix44 q.
Proof.
  unfold compose_matrix, Matrix44_mul; cbv zeta.
  rewrite translation_matrix_zero, scale_matrix_one.
  rewrite np_dot_identity_l, np_dot_identity_r. reflexivity.
Qed.

(** X18: when the rotation array has the affine shape (fourth column
    [0, 0, 0, 1], fourth row [0, 0, 0, 1]) the composed array holds in its
    first three rows the rows of the rotation, each multiplied by one scale
    factor, and in its fourth row the position followed by 1. *)
Theorem compose_matrix_layout (matrix44 : Quaternion -> Matrix44)
    (p : Vector3) (q : Quaternion) (s : Vector3) :
  c3 (row0 (matrix44 q)) = 0 ->
  c3 (row1 (matrix44 q)) = 0 ->
  c3 (row2 (matrix44 q)) = 0 ->
  row3 (matrix44 q) = vec4 0 0 0 1 ->
  compose_matrix matrix44 p q s =
    mat44 (v4_scale (vx s) (row0 (matrix44 q)))
          (v4_scale (vy s) (row1 (matrix44 q)))
          (v4_scale (vz s) (row2 (matrix44 q)))
          (vec4 (vx p) (vy p) (vz p) 1).
Proof.
  destruct (matrix44 q) as [[r00 r01 r02 r03] [r10 r11 r12 r13]
                            [r20 r21 r22 r23] r3] eqn:Er.
  cbn [row0 row1 row2 row3 c3]. intros -> -> -> ->.
  unfold compose_matrix; cbv zeta. rewrite Er.
  destruct p as [px py pz], s as [sx sy sz].
  cbv [Matrix44_mul np_dot np_dot_vm translation_matrix scale_matrix
       v4_add v4_scale c0 c1 c2 c3 row0 row1 row2 row3 vx vy vz].
  f_equal; f_equal; ring.
Qed.

Lemma compose_matrix_layout_witness :
  compose_matrix (fun _ => identity_matrix) (vec3 1 2 3) (quat 0 0 0 1)
                 (vec3 4 5 6)
  = mat44 (v4_scale 4 (vec4 1 0 0 0)) (v4_scale 5 (vec4 0 1 0 0))
          (v4_scale 6 (vec4 0 0 1 0)) (vec4 1 2 3 1).
Proof.
  apply (compose_matrix_layout (fun _ => identity_matrix) (vec3 1 2 3)
           (quat 0 0 0 1) (vec3 4 5 6)); reflexivity.
Defined.

(** X19: the product of the three matrices does not depend on how it is
    bracketed: translation times (rotation times scale) is the composed
    matrix as well. *)
Theorem compose_matrix_bracketing (matrix44 : Quaternion -> Matrix44)
    (p : Vector3) (q : Quaternion) (s : Vector3) :
  compose_matrix matrix44 p q s =
  Matrix44_mul (translation_matrix p)
               (Matrix44_mul (matrix44 q) (scale_matrix s)).
Proof.
  unfold compose_matrix, Matrix44_mul; cbv zeta. apply eq_sym, np_dot_assoc.
Qed.

(** * Further properties of [Renderer._render] *)

Lemma replay_object_events (o : Object3D) (st : Frame.gl_state) :
  fold_left Frame.step (object_events o) st =
  Frame.mkState (Some o) (Some o) (Some o)
                (Frame.draws st ++ Frame.own_draw o).
Proof.
  unfold object_events, draw_events, Frame.own_draw.
  destruct (issubclass_type o PlaneObject3D);
    [| destruct (issubclass_type o IcosahedronObject3D);
       [| destruct (issubclass_type o CubeObject3D);
          [| destruct (issubclass_type o CircleObject3D)]]];
    cbn; rewrite ?app_nil_r; reflexivity.
Qed.

Lemma replay_geometry (os : list Object3D) (st : Frame.gl_state) :
  Frame.draws (fold_left Frame.step (flat_map object_events os) st) =
  Frame.draws st ++ flat_map Frame.own_draw os.
Proof.
  revert st. induction os as [| o os IH]; intros st; cbn [flat_map].
  - cbn [fold_left]. rewrite app_nil_r. reflexivity.
  - rewrite fold_left_app, replay_object_events, IH.
    cbn [Frame.draws]. rewrite app_assoc. reflexivity.
Qed.

(** Before the loop no uniform of an object is written and nothing is
    drawn. *)
Lemma replay_refresh (self : Renderer) (st : Frame.gl_state) :
  fold_left Frame.step (refresh_events self) st = st.
Proof.
  unfold refresh_events.
  destruct (auto_update (scene self)), (_parent (camera self)); reflexivity.
Qed.

Lemma replay_lights (lights : list Object3D) (st : Frame.gl_state) :
  fold_left Frame.step
    match lights with
    | light :: _ =>
        [point_light_color_set light; point_light_position_set light]
    | [] => []
    end st
  = st.
Proof. destruct lights; reflexivity. Qed.

(** X20: read by the graphics context, a frame draws, in the order of the
    render list, each geometry object that derives from one of the four
    known classes exactly once, with the vertex array of the first such
    class in the order plane, icosahedron, cube, circle, and with the model
    matrix, the colour and the size of that very object in the uniforms.
    Objects of other classes are not drawn and do not stop the loop. *)
Theorem render_draws (self : Renderer) :
  Frame.draws (Frame.replay (fst (run (_render self)))) =
  flat_map Frame.own_draw (geometry (render_list (scene self))).
Proof.
  rewrite _render_run. cbn [fst]. unfold Frame.replay, draw_phase_events.
  rewrite fold_left_app, replay_refresh.
  cbn [fold_left app Frame.step].
  rewrite fold_left_app, replay_lights, replay_geometry. reflexivity.
Qed.

Lemma object_events_no_light (os : list Object3D) (e : event) :
  In e (flat_map object_events os) -> Frame.is_light_event e = false.
Proof.
  rewrite in_flat_map. intros (o & _ & H).
  unfold object_events, draw_events in H.
  destruct (issubclass_type o PlaneObject3D),
    (issubclass_type o IcosahedronObject3D),
    (issubclass_type o CubeObject3D),
    (issubclass_type o CircleObject3D);
    cbn [app In] in H;
    repeat (destruct H as [H | H]; [subst e; reflexivity |]);
    contradiction.
Qed.

(** X21: of the point lights of the render list only the first one reaches
    the shader: the frame is the same whatever follows it in the list.  With
    no point light the frame sets no uniform of the light at all. *)
Theorem render_point_lights (auto : bool) (geom : list Object3D)
    (cam : Camera) :
  (forall light rest,
     run (_render (mkRenderer
                     (mkScene auto (mkRenderList geom (light :: rest))) cam))
     = run (_render (mkRenderer
                       (mkScene auto (mkRenderList geom [light])) cam))) /\
  (forall e,
     In e (fst (run (_render (mkRenderer
                                (mkScene auto (mkRenderList geom [])) cam)))) ->
     Frame.is_light_event e = false).
Proof.
  split.
  - intros light rest. rewrite !_render_run. reflexivity.
  - intros e. rewrite _render_run. cbn [fst]. intros H.
    apply in_app_or in H. destruct H as [H | [H | H]].
    + unfold refresh_events in H;
        cbn [scene camera auto_update _parent] in H.
      destruct auto, (_parent cam); cbn [app In] in H;
        repeat (destruct H as [H | H]; [subst e; reflexivity |]);
        contradiction.
    + subst e. reflexivity.
    + unfold draw_phase_events in H;
        cbn [scene render_list point_lights geometry app] in H.
      repeat (destruct H as [H | H]; [subst e; reflexivity |]).
      apply (object_events_no_light _ _ H).
Qed.
